(** * Wireframe rendering of a triangular mesh

    A shallow embedding of [main.py]: the script takes the vertex and face
    arrays of a loaded mesh, issues three [ax.plot] calls per face, sets the
    axis labels and the camera, and opens the viewer.

    The plotting library is an external collaborator. The canvas is
    modelled as the chronological list of the calls the script makes on it,
    and what the library answers to a draw call is a parameter of the
    development: [ax.plot] either accepts the call or raises [ValueError]
    (as it does when the coordinates make the axis limits overflow), and a
    call that raises is the last one on the list. Array indexing follows
    numpy: an index [t] on an axis of size [n] is accepted when
    [-n <= t < n], a negative one counts from the end, and anything else
    raises [IndexError]. *)

From Stdlib Require Import ZArith Lia PrimFloat.
From stdpp Require Import base list strings.

(** ** Data *)

(** Coordinates are float64 values; the script only copies them. *)
Definition coord : Type := float.

(** A one-dimensional array of three entries: a row of [mesh.vertices]
    (shape (n, 3)) and also the result of indexing with a face. *)
Record arr3 : Type := Arr3 { at0 : coord; at1 : coord; at2 : coord }.

Notation "a .[0]" := (at0 a) (at level 1, left associativity, format "a .[0]").
Notation "a .[1]" := (at1 a) (at level 1, left associativity, format "a .[1]").
Notation "a .[2]" := (at2 a) (at level 1, left associativity, format "a .[2]").

(** A row of [mesh.faces] (shape (m, 3), int64 vertex indices). *)
Record face : Type := Face { ix0 : Z; ix1 : Z; ix2 : Z }.

(** The calls the script makes on the plotting library. *)
Inductive call : Type :=
| plt_figure (figsize : Z * Z)
| fig_add_subplot (pos : Z) (projection : string)
| ax_plot (xs ys zs : list coord) (fmt : string) (alpha : float)
| ax_set_xlabel (s : string)
| ax_set_ylabel (s : string)
| ax_set_zlabel (s : string)
| ax_view_init (elev azim : Z)
| plt_show.

(** The state of the script: the two mesh arrays and the canvas. *)
Record world : Type := World {
  vertices : list arr3;
  faces : list face;
  canvas : list call
}.

(** ** Exceptions and the state monad of the script *)

(** [IndexError] comes from numpy's indexing, [ValueError] from [ax.plot]. *)
Inductive exn : Type := IndexError | ValueError.

Inductive result (A : Type) : Type :=
| Ok (a : A)
| Raise (e : exn).
Arguments Ok {A} a.
Arguments Raise {A} e.

Definition M (A : Type) : Type := world -> result A * world.

Definition ret {A} (a : A) : M A := fun w => (Ok a, w).

Definition bind {A B} (m : M A) (k : A -> M B) : M B :=
  fun w => match m w with
           | (Ok a, w') => k a w'
           | (Raise e, w') => (Raise e, w')
           end.

Declare Scope script_scope.
Delimit Scope script_scope with script.
Notation "x <- m ;; k" := (bind m (fun x => k))
  (at level 100, m at next level, right associativity) : script_scope.
Notation "m ;; k" := (bind m (fun _ => k))
  (at level 100, right associativity) : script_scope.
Open Scope script_scope.

(** Lift a pure, possibly failing computation. *)
Definition lift {A} (r : result A) : M A := fun w => (r, w).

(** Read the global [vertices]. *)
Definition get_vertices : M (list arr3) := fun w => (Ok (vertices w), w).

(** Read the global [faces]. *)
Definition get_faces : M (list face) := fun w => (Ok (faces w), w).

(** Make a call on the plotting library that the library does not refuse:
    the calls that set the figure up, label the axes, place the camera and
    open the viewer. *)
Definition emit (c : call) : M unit :=
  fun w => (Ok tt, World (vertices w) (faces w) (canvas w ++ [c])).

(** ** numpy indexing *)

(** Bounds check and wrap-around of one index on an axis of size [n]. *)
Definition axis_index (n : Z) (t : Z) : result nat :=
  if ((t <? - n) || (n <=? t))%Z then Raise IndexError
  else Ok (Z.to_nat (if (t <? 0)%Z then (t + n)%Z else t)).

(** [r[c]] on a row of three. *)
Definition row_item (r : arr3) (c : Z) : result coord :=
  match axis_index 3 c with
  | Ok 0%nat => Ok r.[0]
  | Ok 1%nat => Ok r.[1]
  | Ok _ => Ok r.[2]
  | Raise e => Raise e
  end.

(** [V[t, c]] for scalar [t] and [c]. *)
Definition item (V : list arr3) (t c : Z) : result coord :=
  match axis_index (Z.of_nat (length V)) t with
  | Ok k => match V !! k with
            | Some r => row_item r c
            | None => Raise IndexError
            end
  | Raise e => Raise e
  end.

(** [V[face, c]]: an integer array on the first axis and a scalar on the
    second; the result has the shape of [face]. *)
Definition fancy_index (V : list arr3) (f : face) (c : Z) : result arr3 :=
  match item V (ix0 f) c, item V (ix1 f) c, item V (ix2 f) c with
  | Ok a, Ok b, Ok d => Ok (Arr3 a b d)
  | _, _, _ => Raise IndexError
  end.

(** ** The script *)

(** [for a in l: body(a)] *)
Fixpoint for_each {A} (l : list A) (body : A -> M unit) : M unit :=
  match l with
  | [] => ret tt
  | a :: l' => body a ;; for_each l' body
  end.

Section Script.

(** What [ax.plot] answers: [plot_refused h c] tells whether the draw call
    [c], made after the calls [h], raises [ValueError]. *)
Variable plot_refused : list call -> call -> bool.

(** [ax.plot(xs, ys, zs, fmt, alpha=alpha)]: the call is made, and it
    either returns or raises. *)
Definition plot (xs ys zs : list coord) (fmt : string) (alpha : float) :
    M unit :=
  fun w =>
    (if plot_refused (canvas w) (ax_plot xs ys zs fmt alpha)
     then Raise ValueError else Ok tt,
     World (vertices w) (faces w)
       (canvas w ++ [ax_plot xs ys zs fmt alpha])).

(** The body of the face loop (lines 21-27). *)
Definition draw_face (face : face) : M unit :=
  V <- get_vertices ;;
  x <- lift (fancy_index V face 0) ;;
  V <- get_vertices ;;
  y <- lift (fancy_index V face 1) ;;
  V <- get_vertices ;;
  z <- lift (fancy_index V face 2) ;;
  plot [x.[0]; x.[1]] [y.[0]; y.[1]] [z.[0]; z.[1]] "b-" 0.5%float ;;
  plot [x.[1]; x.[2]] [y.[1]; y.[2]] [z.[1]; z.[2]] "b-" 0.5%float ;;
  plot [x.[2]; x.[0]] [y.[2]; y.[0]] [z.[2]; z.[0]] "b-" 0.5%float.

(** The drawing pass (lines 20-27). *)
Definition draw_pass : M unit :=
  F <- get_faces ;;
  for_each F draw_face.

(** The whole script after the mesh is loaded (lines 15-38). *)
Definition main : M unit :=
  emit (plt_figure (10, 10)%Z) ;;
  emit (fig_add_subplot 111 "3d") ;;
  draw_pass ;;
  emit (ax_set_xlabel "X") ;;
  emit (ax_set_ylabel "Y") ;;
  emit (ax_set_zlabel "Z") ;;
  emit (ax_view_init 20 45) ;;
  emit plt_show.

(** The world right after loading: the mesh arrays and an empty canvas. *)
Definition loaded (V : list arr3) (F : list face) : world := World V F [].

Definition run (V : list arr3) (F : list face) : result unit * world :=
  main (loaded V F).

(** ** Derived notions used to state the properties *)

(** The vertex an index denotes under numpy's rule, when it is accepted. *)
Definition vertex_at (V : list arr3) (t : Z) : option arr3 :=
  match axis_index (Z.of_nat (length V)) t with
  | Ok k => V !! k
  | Raise _ => None
  end.

(** The draw call for the segment from vertex [p] to vertex [q]. *)
Definition segment (p q : arr3) : call :=
  ax_plot [p.[0]; q.[0]] [p.[1]; q.[1]] [p.[2]; q.[2]] "b-" 0.5%float.

(** The three draw calls of one face, when all its indices are accepted. *)
Definition face_calls (V : list arr3) (f : face) : option (list call) :=
  match vertex_at V (ix0 f), vertex_at V (ix1 f), vertex_at V (ix2 f) with
  | Some p, Some q, Some r => Some [segment p q; segment q r; segment r p]
  | _, _, _ => None
  end.

(** The draw calls that a pass over [F] sets out to make: those of the
    faces before the first face that is refused; and whether no face is
    refused. *)
Fixpoint pass_calls (V : list arr3) (F : list face) : list call * bool :=
  match F with
  | [] => ([], true)
  | f :: F' =>
      match face_calls V f with
      | Some cs => (cs ++ (pass_calls V F').1, (pass_calls V F').2)
      | None => ([], false)
      end
  end.

Definition is_plot (c : call) : bool :=
  match c with ax_plot _ _ _ _ _ => true | _ => false end.

(** The draw calls among the calls on the canvas, in order. *)
Definition plots (cs : list call) : list call := List.filter is_plot cs.

(** An index that is a position of [V]. *)
Definition valid_index (V : list arr3) (t : Z) : Prop :=
  (0 <= t < Z.of_nat (length V))%Z.

Definition valid_face (V : list arr3) (f : face) : Prop :=
  valid_index V (ix0 f) /\ valid_index V (ix1 f) /\ valid_index V (ix2 f).

(** An index that numpy accepts on an axis of the size of [V]. *)
Definition in_bounds (V : list arr3) (t : Z) : Prop :=
  (- Z.of_nat (length V) <= t < Z.of_nat (length V))%Z.

Definition in_bounds_face (V : list arr3) (f : face) : Prop :=
  in_bounds V (ix0 f) /\ in_bounds V (ix1 f) /\ in_bounds V (ix2 f).

(** The calls before the display call, when the viewer was opened. *)
Fixpoint displayed (cs : list call) : option (list call) :=
  match cs with
  | [] => None
  | plt_show :: _ => Some []
  | c :: cs' => (c ::.) <$> displayed cs'
  end.

Definition xlabel_arg (c : call) : option string :=
  match c with ax_set_xlabel s => Some s | _ => None end.
Definition ylabel_arg (c : call) : option string :=
  match c with ax_set_ylabel s => Some s | _ => None end.
Definition zlabel_arg (c : call) : option string :=
  match c with ax_set_zlabel s => Some s | _ => None end.
Definition view_arg (c : call) : option (Z * Z) :=
  match c with ax_view_init e a => Some (e, a) | _ => None end.

(** The value a setter left behind: the argument of its last call. *)
Definition last_set {A} (arg : call -> option A) (cs : list call) : option A :=
  last (omap arg cs).

(** The world after further calls on the canvas. *)
Definition add_calls (w : world) (cs : list call) : world :=
  World (vertices w) (faces w) (canvas w ++ cs).

(** The calls before the drawing pass (lines 15-16). *)
Definition prologue : list call :=
  [plt_figure (10, 10)%Z; fig_add_subplot 111 "3d"].

(** The calls after the drawing pass (lines 30-38). *)
Definition epilogue : list call :=
  [ax_set_xlabel "X"; ax_set_ylabel "Y"; ax_set_zlabel "Z";
   ax_view_init 20 45; plt_show].

(** The contract of the renderer in the words of the specification: for
    every triangle (i, j, k) of F, in the order of F, the segments
    V[i]->V[j], V[j]->V[k], V[k]->V[i]. *)
Definition spec_face_segments (V : list arr3) (f : face) : list call :=
  match V !! Z.to_nat (ix0 f), V !! Z.to_nat (ix1 f), V !! Z.to_nat (ix2 f) with
  | Some vi, Some vj, Some vk => [segment vi vj; segment vj vk; segment vk vi]
  | _, _, _ => []
  end.

Definition spec_draw_sequence (V : list arr3) (F : list face) : list call :=
  flat_map (spec_face_segments V) F.

(** The edges of a face, as pairs of vertex indices in drawing order. *)
Definition edges (f : face) : list (Z * Z) :=
  [(ix0 f, ix1 f); (ix1 f, ix2 f); (ix2 f, ix0 f)].

(** The face has an edge between the vertices of indices [a] and [b]. *)
Definition has_edge (f : face) (a b : Z) : Prop :=
  (a, b) ∈ edges f \/ (b, a) ∈ edges f.

(** The call draws a segment between [p] and [q], in either direction. *)
Definition joins (p q : arr3) (c : call) : Prop :=
  c = segment p q \/ c = segment q p.


(** The position numpy reads for an accepted index: a negative index
    counts from the end. *)
Definition resolve (V : list arr3) (t : Z) : nat :=
  Z.to_nat (if (t <? 0)%Z then (t + Z.of_nat (length V))%Z else t).

(** A sample mesh: four vertices and two triangles that share the edge
    between vertices 0 and 2. *)
Definition p0 : arr3 := Arr3 0%float 0%float 0%float.
Definition p1 : arr3 := Arr3 1%float 0%float 0%float.
Definition p2 : arr3 := Arr3 1%float 1%float 0.5%float.
Definition p3 : arr3 := Arr3 0%float 1%float 0%float.
Definition square : list arr3 := [p0; p1; p2; p3].
Definition two_triangles : list face := [Face 0 1 2; Face 0 2 3].

(** A face list for the square whose second face has the index 4, one past
    the last vertex. *)
Definition one_bad_index : list face := [Face 0 1 2; Face 0 4 1; Face 0 2 3].

(** A transformation of the mesh that acts on each axis separately, on a
    vertex and on the coordinate lists of a draw call. *)
Definition map_vertex (gx gy gz : coord -> coord) (p : arr3) : arr3 :=
  Arr3 (gx p.[0]) (gy p.[1]) (gz p.[2]).

Definition map_call (gx gy gz : coord -> coord) (c : call) : call :=
  match c with
  | ax_plot xs ys zs fmt alpha =>
      ax_plot (gx <$> xs) (gy <$> ys) (gz <$> zs) fmt alpha
  | _ => c
  end.

(** The same triangle, starting from its second vertex. *)
Definition rotate_face (f : face) : face := Face (ix1 f) (ix2 f) (ix0 f).

(** The face with each index replaced by the position it resolves to. *)
Definition normalise_face (V : list arr3) (f : face) : face :=
  Face (Z.of_nat (resolve V (ix0 f))) (Z.of_nat (resolve V (ix1 f)))
       (Z.of_nat (resolve V (ix2 f))).

(** The calls among [cs] that are made, one after the other, after the
    calls [h]: up to and including the first one the library refuses; and
    whether the library accepted them all. *)
Fixpoint issue (h : list call) (cs : list call) : list call * bool :=
  match cs with
  | [] => ([], true)
  | c :: cs' =>
      if plot_refused h c then ([c], false)
      else (c :: (issue (h ++ [c]) cs').1, (issue (h ++ [c]) cs').2)
  end.

(** The library accepts the draw calls [cs], made in this order after the
    calls [h]. *)
Definition accepted (h : list call) (cs : list call) : Prop :=
  (issue h cs).2 = true.

(** The draw calls made in a run on [V] and [F], and whether the library
    accepted them all. *)
Definition drawn (V : list arr3) (F : list face) : list call * bool :=
  issue prologue (pass_calls V F).1.

(** A mesh with a coordinate close to the largest float64: a triangle
    whose third vertex has z = 1.797e308. *)
Definition near_max : float := 0x1.ffcd7672f2096p+1023%float.
Definition spike : list arr3 :=
  [Arr3 0%float 0%float 0%float; Arr3 1%float 0%float 0%float;
   Arr3 0%float 1%float near_max].


Definition huge (v : coord) : bool := (near_max <=? abs v)%float.

Definition refuses_huge : list call -> call -> bool :=
  fun _ c =>
    match c with
    | ax_plot xs ys zs _ _ => existsb huge (xs ++ ys ++ zs)
    | _ => false
    end.

(** ** Indexing lemmas *)

Lemma axis_index_ok (n t : Z) :
  (- n <= t < n)%Z ->
  axis_index n t = Ok (Z.to_nat (if (t <? 0)%Z then (t + n)%Z else t)).
Proof.
  intros Hb. unfold axis_index.
  destruct (Z.ltb_spec t (- n)); [lia|].
  destruct (Z.leb_spec n t); [lia|]. reflexivity.
Qed.

Lemma axis_index_raise (n t : Z) :
  (t < - n \/ n <= t)%Z -> axis_index n t = Raise IndexError.
Proof.
  intros Hb. unfold axis_index.
  destruct (Z.ltb_spec t (- n)); [reflexivity|].
  destruct (Z.leb_spec n t); [reflexivity|lia].
Qed.

Lemma in_bounds_dec (V : list arr3) (t : Z) :
  in_bounds V t \/ (t < - Z.of_nat (length V) \/ Z.of_nat (length V) <= t)%Z.
Proof. unfold in_bounds. lia. Qed.

Lemma vertex_at_in_bounds (V : list arr3) (t : Z) :
  in_bounds V t ->
  exists p, vertex_at V t = Some p /\ V !! resolve V t = Some p.
Proof.
  intros Hb. unfold vertex_at. rewrite axis_index_ok by exact Hb.
  destruct (lookup_lt_is_Some_2 V
    (Z.to_nat (if (t <? 0)%Z then (t + Z.of_nat (length V))%Z else t)))
    as [p Hp].
  - unfold in_bounds in Hb. destruct (Z.ltb_spec t 0); lia.
  - exists p. split; exact Hp.
Qed.

Lemma vertex_at_valid (V : list arr3) (t : Z) (p : arr3) :
  (0 <= t)%Z -> V !! Z.to_nat t = Some p -> vertex_at V t = Some p.
Proof.
  intros Ht Hp. apply lookup_lt_Some in Hp as Hlt.
  unfold vertex_at. rewrite axis_index_ok by lia.
  destruct (Z.ltb_spec t 0); [lia|]. exact Hp.
Qed.

Lemma vertex_at_out (V : list arr3) (t : Z) :
  (t < - Z.of_nat (length V) \/ Z.of_nat (length V) <= t)%Z ->
  vertex_at V t = None.
Proof.
  intros Hb. unfold vertex_at.
  rewrite axis_index_raise by exact Hb. reflexivity.
Qed.

Lemma vertex_at_Some_in_bounds (V : list arr3) (t : Z) (p : arr3) :
  vertex_at V t = Some p -> in_bounds V t.
Proof.
  intros Hp. destruct (in_bounds_dec V t) as [Hb|Hb]; [exact Hb|].
  rewrite vertex_at_out in Hp by exact Hb. discriminate.
Qed.

Lemma item_vertex_at (V : list arr3) (t c : Z) :
  item V t c = match vertex_at V t with
               | Some r => row_item r c
               | None => Raise IndexError
               end.
Proof.
  unfold item, vertex_at, axis_index.
  destruct ((t <? - Z.of_nat (length V)) || (Z.of_nat (length V) <=? t))%Z;
    reflexivity.
Qed.

Lemma fancy_index_face_calls (V : list arr3) (f : face) :
  match vertex_at V (ix0 f), vertex_at V (ix1 f), vertex_at V (ix2 f) with
  | Some p, Some q, Some r =>
      fancy_index V f 0 = Ok (Arr3 p.[0] q.[0] r.[0]) /\
      fancy_index V f 1 = Ok (Arr3 p.[1] q.[1] r.[1]) /\
      fancy_index V f 2 = Ok (Arr3 p.[2] q.[2] r.[2])
  | _, _, _ => fancy_index V f 0 = Raise IndexError
  end.
Proof.
  unfold fancy_index. rewrite !item_vertex_at.
  destruct (vertex_at V (ix0 f)) as [p|];
    destruct (vertex_at V (ix1 f)) as [q|];
    destruct (vertex_at V (ix2 f)) as [r|]; repeat split; reflexivity.
Qed.

(** ** The script, call by call *)

Lemma add_calls_nil (w : world) : add_calls w [] = w.
Proof.
  destruct w as [V F c]. unfold add_calls. simpl.
  rewrite app_nil_r. reflexivity.
Qed.

Lemma add_calls_app (w : world) (cs ds : list call) :
  add_calls (add_calls w cs) ds = add_calls w (cs ++ ds).
Proof. unfold add_calls. simpl. rewrite app_assoc. reflexivity. Qed.

Lemma issue_accepted (h cs : list call) :
  (issue h cs).2 = true -> (issue h cs).1 = cs.
Proof.
  revert h. induction cs as [|c cs IH]; intros h; simpl; [reflexivity|].
  destruct (plot_refused h c); simpl; [discriminate|].
  intros Hacc. rewrite (IH _ Hacc). reflexivity.
Qed.

Lemma issue_prefix (h cs : list call) : (issue h cs).1 `prefix_of` cs.
Proof.
  revert h. induction cs as [|c cs IH]; intros h; simpl; [reflexivity|].
  destruct (plot_refused h c); simpl.
  - exists cs. reflexivity.
  - apply prefix_cons, IH.
Qed.

Lemma issue_app (h cs ds : list call) :
  issue h (cs ++ ds) =
    if (issue h cs).2
    then (cs ++ (issue (h ++ cs) ds).1, (issue (h ++ cs) ds).2)
    else issue h cs.
Proof.
  revert h. induction cs as [|c cs IH]; intros h; simpl.
  - rewrite app_nil_r. destruct (issue h ds); reflexivity.
  - destruct (plot_refused h c); simpl; [reflexivity|].
    rewrite IH, <- app_assoc. simpl.
    destruct ((issue (h ++ [c]) cs).2) eqn:Hacc; simpl; [reflexivity|].
    rewrite Hacc. reflexivity.
Qed.

Lemma draw_face_spec (f : face) (w : world) :
  draw_face f w =
    match face_calls (vertices w) f with
    | Some cs =>
        (if (issue (canvas w) cs).2 then Ok tt else Raise ValueError,
         add_calls w (issue (canvas w) cs).1)
    | None => (Raise IndexError, w)
    end.
Proof.
  pose proof (fancy_index_face_calls (vertices w) f) as H.
  unfold draw_face, face_calls, bind, get_vertices, lift.
  destruct (vertex_at (vertices w) (ix0 f)) as [p|];
    destruct (vertex_at (vertices w) (ix1 f)) as [q|];
    destruct (vertex_at (vertices w) (ix2 f)) as [r|];
    try (rewrite H; reflexivity).
  destruct H as (H0 & H1 & H2). rewrite H0, H1, H2.
  unfold plot, add_calls, segment. cbn [at0 at1 at2 vertices faces canvas issue].
  destruct (plot_refused (canvas w) _); [reflexivity|].
  destruct (plot_refused (canvas w ++ [_]) _); cbn [fst snd];
    [rewrite <- !app_assoc; reflexivity|].
  destruct (plot_refused ((canvas w ++ [_]) ++ [_]) _); cbn [fst snd];
    rewrite <- !app_assoc; reflexivity.
Qed.

Lemma for_each_draw_face (F : list face) (w : world) :
  for_each F draw_face w =
    (if (issue (canvas w) (pass_calls (vertices w) F).1).2
     then if (pass_calls (vertices w) F).2 then Ok tt else Raise IndexError
     else Raise ValueError,
     add_calls w (issue (canvas w) (pass_calls (vertices w) F).1).1).
Proof.
  revert w. induction F as [|f F IH]; intros w.
  - simpl. rewrite add_calls_nil. reflexivity.
  - cbn [for_each pass_calls]. unfold bind. rewrite draw_face_spec.
    destruct (face_calls (vertices w) f) as [cs|]; cbn [fst snd].
    + rewrite issue_app.
      destruct ((issue (canvas w) cs).2) eqn:Hacc; cbn [fst snd];
        [|rewrite Hacc; reflexivity].
      rewrite (issue_accepted _ _ Hacc), IH. cbn [fst snd vertices canvas add_calls].
      rewrite add_calls_app. reflexivity.
    + simpl. rewrite add_calls_nil. reflexivity.
Qed.

Lemma draw_pass_spec (w : world) :
  draw_pass w =
    (if (issue (canvas w) (pass_calls (vertices w) (faces w)).1).2
     then if (pass_calls (vertices w) (faces w)).2
          then Ok tt else Raise IndexError
     else Raise ValueError,
     add_calls w (issue (canvas w) (pass_calls (vertices w) (faces w)).1).1).
Proof. unfold draw_pass, bind, get_faces. apply for_each_draw_face. Qed.

Lemma main_spec (w : world) :
  main w =
    (if (issue (canvas w ++ prologue) (pass_calls (vertices w) (faces w)).1).2
     then if (pass_calls (vertices w) (faces w)).2
          then Ok tt else Raise IndexError
     else Raise ValueError,
     add_calls w
       (prologue ++
        (issue (canvas w ++ prologue) (pass_calls (vertices w) (faces w)).1).1 ++
        if (issue (canvas w ++ prologue)
              (pass_calls (vertices w) (faces w)).1).2 &&
           (pass_calls (vertices w) (faces w)).2
        then epilogue else [])).
Proof.
  unfold main. unfold bind at 1. unfold emit at 1.
  unfold bind at 1. unfold emit at 1. unfold bind at 1.
  rewrite draw_pass_spec. cbn [vertices faces canvas].
  rewrite <- app_assoc. change ([plt_figure (10%Z, 10%Z)] ++ [fig_add_subplot 111 "3d"])
    with prologue.
  destruct (issue (canvas w ++ prologue) (pass_calls (vertices w) (faces w)).1)
    as [cs acc].
  destruct (pass_calls (vertices w) (faces w)) as [ds through].
  cbn [fst snd]. unfold add_calls. cbn [vertices faces canvas].
  destruct acc, through; cbn [andb];
    unfold bind, emit, epilogue; cbn [vertices faces canvas];
    rewrite <- ?app_assoc, ?app_nil_r; reflexivity.
Qed.

Lemma run_spec (V : list arr3) (F : list face) :
  run V F =
    (if (drawn V F).2
     then if (pass_calls V F).2 then Ok tt else Raise IndexError
     else Raise ValueError,
     World V F
       (prologue ++ (drawn V F).1 ++
        if (drawn V F).2 && (pass_calls V F).2 then epilogue else [])).
Proof. unfold run. rewrite main_spec. reflexivity. Qed.

(** ** The calls of a pass *)

Lemma valid_index_in_bounds (V : list arr3) (t : Z) :
  valid_index V t -> in_bounds V t.
Proof. unfold valid_index, in_bounds. lia. Qed.

Lemma valid_face_in_bounds (V : list arr3) (f : face) :
  valid_face V f -> in_bounds_face V f.
Proof.
  intros (H0 & H1 & H2). repeat split; apply valid_index_in_bounds; assumption.
Qed.

Lemma valid_index_lookup (V : list arr3) (t : Z) :
  valid_index V t ->
  exists p, V !! Z.to_nat t = Some p /\ vertex_at V t = Some p.
Proof.
  intros Hv. destruct (lookup_lt_is_Some_2 V (Z.to_nat t)) as [p Hp].
  - unfold valid_index in Hv. lia.
  - exists p. split; [exact Hp|]. apply vertex_at_valid; [apply Hv|exact Hp].
Qed.

Lemma face_calls_three (V : list arr3) (f : face) (cs : list call) :
  face_calls V f = Some cs ->
  exists p q r,
    vertex_at V (ix0 f) = Some p /\ vertex_at V (ix1 f) = Some q /\
    vertex_at V (ix2 f) = Some r /\
    cs = [segment p q; segment q r; segment r p].
Proof.
  unfold face_calls.
  destruct (vertex_at V (ix0 f)) as [p|]; [|discriminate].
  destruct (vertex_at V (ix1 f)) as [q|]; [|discriminate].
  destruct (vertex_at V (ix2 f)) as [r|]; [|discriminate].
  intros [= <-]. exists p, q, r. repeat split.
Qed.

Lemma face_calls_in_bounds (V : list arr3) (f : face) :
  in_bounds_face V f <-> is_Some (face_calls V f).
Proof.
  split.
  - intros (H0 & H1 & H2). unfold face_calls.
    destruct (vertex_at_in_bounds V _ H0) as (p & -> & _).
    destruct (vertex_at_in_bounds V _ H1) as (q & -> & _).
    destruct (vertex_at_in_bounds V _ H2) as (r & -> & _).
    eexists. reflexivity.
  - intros [cs Hcs].
    apply face_calls_three in Hcs as (p & q & r & H0 & H1 & H2 & _).
    repeat split; eapply vertex_at_Some_in_bounds; eassumption.
Qed.

Lemma face_calls_valid (V : list arr3) (f : face) :
  valid_face V f ->
  face_calls V f = Some (spec_face_segments V f) /\
  length (spec_face_segments V f) = 3.
Proof.
  intros (H0 & H1 & H2). unfold face_calls, spec_face_segments.
  destruct (valid_index_lookup V _ H0) as (p & -> & ->).
  destruct (valid_index_lookup V _ H1) as (q & -> & ->).
  destruct (valid_index_lookup V _ H2) as (r & -> & ->).
  split; reflexivity.
Qed.

Lemma pass_calls_valid (V : list arr3) (F : list face) :
  Forall (valid_face V) F -> pass_calls V F = (spec_draw_sequence V F, true).
Proof.
  induction 1 as [|f F Hf _ IH]; [reflexivity|].
  simpl. destruct (face_calls_valid V f Hf) as [-> _].
  rewrite IH. reflexivity.
Qed.

Lemma pass_calls_through (V : list arr3) (F : list face) :
  (pass_calls V F).2 = true <-> Forall (in_bounds_face V) F.
Proof.
  induction F as [|f F IH]; simpl.
  - split; [constructor|reflexivity].
  - destruct (face_calls V f) as [cs|] eqn:Hf; simpl.
    + rewrite IH. split.
      * intros HF. constructor; [|exact HF].
        apply face_calls_in_bounds. rewrite Hf. eexists. reflexivity.
      * intros HF. inversion HF; assumption.
    + split; [discriminate|]. intros HF. inversion HF as [|? ? Hb _]; subst.
      apply face_calls_in_bounds in Hb as [cs Hcs]. congruence.
Qed.

Lemma pass_calls_plots (V : list arr3) (F : list face) :
  Forall (fun c => is_plot c = true) (pass_calls V F).1.
Proof.
  induction F as [|f F IH]; simpl; [constructor|].
  destruct (face_calls V f) as [cs|] eqn:Hf; simpl; [|constructor].
  apply face_calls_three in Hf as (p & q & r & _ & _ & _ & ->).
  repeat constructor. exact IH.
Qed.

Lemma pass_calls_length (V : list arr3) (F : list face) :
  (pass_calls V F).2 = true -> length (pass_calls V F).1 = 3 * length F.
Proof.
  induction F as [|f F IH]; simpl; [reflexivity|].
  destruct (face_calls V f) as [cs|] eqn:Hf; simpl; [|discriminate].
  intros Hb. apply face_calls_three in Hf as (p & q & r & _ & _ & _ & ->).
  simpl. rewrite (IH Hb). lia.
Qed.

Lemma pass_calls_lookup (V : list arr3) (F : list face) (n : nat) (f : face)
    (a b c : call) :
  (pass_calls V F).2 = true ->
  F !! n = Some f ->
  face_calls V f = Some [a; b; c] ->
  (pass_calls V F).1 !! (3 * n) = Some a /\
  (pass_calls V F).1 !! (3 * n + 1) = Some b /\
  (pass_calls V F).1 !! (3 * n + 2) = Some c.
Proof.
  revert n. induction F as [|g F IH]; intros n Hthrough Hn Hf; [discriminate|].
  cbn [pass_calls] in Hthrough |- *.
  destruct (face_calls V g) as [cs|] eqn:Hg; cbn [fst snd] in *;
    [|discriminate].
  destruct n as [|n].
  - injection Hn as ->. rewrite Hf in Hg. injection Hg as <-. repeat split.
  - apply face_calls_three in Hg as (p & q & r & _ & _ & _ & ->).
    destruct (IH n Hthrough Hn Hf) as (Ha & Hb & Hc).
    replace (3 * S n) with (S (S (S (3 * n)))) by lia.
    repeat split; [exact Ha|exact Hb|exact Hc].
Qed.

Lemma plots_app (cs ds : list call) : plots (cs ++ ds) = plots cs ++ plots ds.
Proof. unfold plots. apply List.filter_app. Qed.

Lemma plots_all (cs : list call) :
  Forall (fun c => is_plot c = true) cs -> plots cs = cs.
Proof.
  induction 1 as [|c cs Hc _ IH]; [reflexivity|].
  unfold plots in *. simpl. rewrite Hc, IH. reflexivity.
Qed.

Lemma prefix_Forall {A} (P : A -> Prop) (l k : list A) :
  l `prefix_of` k -> Forall P k -> Forall P l.
Proof. intros [m ->] Hall. apply Forall_app in Hall. apply Hall. Qed.

Lemma drawn_prefix (V : list arr3) (F : list face) :
  (drawn V F).1 `prefix_of` (pass_calls V F).1.
Proof. apply issue_prefix. Qed.

Lemma drawn_accepted (V : list arr3) (F : list face) :
  (drawn V F).2 = true -> (drawn V F).1 = (pass_calls V F).1.
Proof. apply issue_accepted. Qed.

Lemma drawn_plots (V : list arr3) (F : list face) :
  Forall (fun c => is_plot c = true) (drawn V F).1.
Proof. exact (prefix_Forall _ _ _ (drawn_prefix V F) (pass_calls_plots V F)). Qed.

Lemma canvas_run (V : list arr3) (F : list face) :
  canvas (run V F).2 =
    prologue ++ (drawn V F).1 ++
    (if (drawn V F).2 && (pass_calls V F).2 then epilogue else []).
Proof. rewrite run_spec. reflexivity. Qed.

Lemma result_run (V : list arr3) (F : list face) :
  (run V F).1 =
    if (drawn V F).2
    then if (pass_calls V F).2 then Ok tt else Raise IndexError
    else Raise ValueError.
Proof. rewrite run_spec. reflexivity. Qed.

Lemma plots_run (V : list arr3) (F : list face) :
  plots (canvas (run V F).2) = (drawn V F).1.
Proof.
  rewrite canvas_run, !plots_app.
  rewrite (plots_all _ (drawn_plots V F)).
  destruct ((drawn V F).2 && (pass_calls V F).2); cbn; apply app_nil_r.
Qed.

Lemma result_run_ok (V : list arr3) (F : list face) :
  (run V F).1 = Ok tt <->
  (drawn V F).2 = true /\ (pass_calls V F).2 = true.
Proof.
  rewrite result_run.
  destruct ((drawn V F).2), ((pass_calls V F).2); split;
    try discriminate; try tauto; intros []; discriminate.
Qed.

Lemma result_run_index (V : list arr3) (F : list face) :
  (run V F).1 = Raise IndexError <->
  (drawn V F).2 = true /\ (pass_calls V F).2 = false.
Proof.
  rewrite result_run.
  destruct ((drawn V F).2), ((pass_calls V F).2); split;
    try discriminate; try tauto; intros []; discriminate.
Qed.

Lemma result_run_value (V : list arr3) (F : list face) :
  (run V F).1 = Raise ValueError <-> (drawn V F).2 = false.
Proof.
  rewrite result_run.
  destruct ((drawn V F).2), ((pass_calls V F).2); split;
    try discriminate; reflexivity.
Qed.

(** A run on a mesh with valid indices in which the library accepts the
    draw calls of the contract. *)
Lemma run_valid_accepted (V : list arr3) (F : list face) :
  Forall (valid_face V) F ->
  accepted prologue (spec_draw_sequence V F) ->
  (run V F).1 = Ok tt /\
  plots (canvas (run V F).2) = spec_draw_sequence V F /\
  (pass_calls V F).1 = spec_draw_sequence V F /\
  (pass_calls V F).2 = true.
Proof.
  intros HF Hacc. pose proof (pass_calls_valid V F HF) as Hpc.
  assert (Hd : (drawn V F).2 = true) by (unfold drawn; rewrite Hpc; exact Hacc).
  rewrite plots_run, (drawn_accepted V F Hd), Hpc.
  split; [|repeat split]. apply result_run_ok. rewrite Hd, Hpc. split; reflexivity.
Qed.

(** ** The contract of the renderer *)

Lemma square_two_triangles_valid : Forall (valid_face square) two_triangles.
Proof. repeat constructor; simpl; lia. Defined.

Lemma face_block_drawn (V : list arr3) (F : list face) (n : nat) (f : face)
    (vi vj vk : arr3) :
  Forall (valid_face V) F ->
  accepted prologue (spec_draw_sequence V F) ->
  F !! n = Some f ->
  V !! Z.to_nat (ix0 f) = Some vi ->
  V !! Z.to_nat (ix1 f) = Some vj ->
  V !! Z.to_nat (ix2 f) = Some vk ->
  plots (canvas (run V F).2) !! (3 * n) = Some (segment vi vj) /\
  plots (canvas (run V F).2) !! (3 * n + 1) = Some (segment vj vk) /\
  plots (canvas (run V F).2) !! (3 * n + 2) = Some (segment vk vi).
Proof.
  intros HF Hacc Hn Hi Hj Hk.
  destruct (run_valid_accepted V F HF Hacc) as (_ & -> & <- & Hthrough).
  destruct (proj1 (Forall_lookup _ _) HF n _ Hn)
    as ((Hi0 & _) & (Hj0 & _) & (Hk0 & _)).
  apply (pass_calls_lookup V F n f _ _ _ Hthrough Hn).
  unfold face_calls.
  rewrite (vertex_at_valid V _ vi Hi0 Hi), (vertex_at_valid V _ vj Hj0 Hj),
    (vertex_at_valid V _ vk Hk0 Hk). reflexivity.
Qed.

Lemma run_valid_ok (V : list arr3) (F : list face) :
  Forall (valid_face V) F ->
  accepted prologue (spec_draw_sequence V F) ->
  (run V F).1 = Ok tt /\ length (plots (canvas (run V F).2)) = 3 * length F.
Proof.
  intros HF Hacc.
  destruct (run_valid_accepted V F HF Hacc) as (Hok & -> & <- & Hthrough).
  split; [exact Hok|]. apply pass_calls_length, Hthrough.
Qed.

(** C1: when all indices of the face list F are positions of the vertex
    list V and the plotting library accepts the draw calls of the
    contract, the run succeeds and the triangle (i, j, k) at position n of
    F gives exactly the draw calls number 3n, 3n+1 and 3n+2 (of 3 * |F| in
    all): the segments V[i]->V[j], V[j]->V[k] and V[k]->V[i], whose x, y
    and z endpoint coordinates are those of the vertex-list entries. *)
Theorem triangle_segments_drawn (V : list arr3) (F : list face) (n : nat)
    (i j k : Z) (vi vj vk : arr3) :
  Forall (valid_face V) F ->
  accepted prologue (spec_draw_sequence V F) ->
  F !! n = Some (Face i j k) ->
  V !! Z.to_nat i = Some vi ->
  V !! Z.to_nat j = Some vj ->
  V !! Z.to_nat k = Some vk ->
  (run V F).1 = Ok tt /\
  plots (canvas (run V F).2) !! (3 * n) =
    Some (ax_plot [vi.[0]; vj.[0]] [vi.[1]; vj.[1]] [vi.[2]; vj.[2]]
            "b-" 0.5%float) /\
  plots (canvas (run V F).2) !! (3 * n + 1) =
    Some (ax_plot [vj.[0]; vk.[0]] [vj.[1]; vk.[1]] [vj.[2]; vk.[2]]
            "b-" 0.5%float) /\
  plots (canvas (run V F).2) !! (3 * n + 2) =
    Some (ax_plot [vk.[0]; vi.[0]] [vk.[1]; vi.[1]] [vk.[2]; vi.[2]]
            "b-" 0.5%float) /\
  length (plots (canvas (run V F).2)) = 3 * length F.
Proof.
  intros HF Hacc Hn Hi Hj Hk.
  destruct (run_valid_ok V F HF Hacc) as [Hok Hlen].
  destruct (face_block_drawn V F n (Face i j k) vi vj vk HF Hacc Hn Hi Hj Hk)
    as (Ha & Hb & Hc).
  split; [exact Hok|].
  split; [exact Ha|]. split; [exact Hb|]. split; [exact Hc|exact Hlen].
Qed.

Lemma edge_drawn_by_face (V : list arr3) (F : list face) (n : nat) (f : face)
    (a b : Z) (va vb : arr3) :
  Forall (valid_face V) F ->
  accepted prologue (spec_draw_sequence V F) ->
  F !! n = Some f ->
  has_edge f a b ->
  V !! Z.to_nat a = Some va ->
  V !! Z.to_nat b = Some vb ->
  exists m c, 3 * n <= m < 3 * n + 3 /\
    plots (canvas (run V F).2) !! m = Some c /\ joins va vb c.
Proof.
  intros HF Hacc Hn He Ha Hb. destruct f as [i j k].
  destruct (proj1 (Forall_lookup _ _) HF n _ Hn) as (Hi & Hj & Hk).
  destruct (valid_index_lookup V _ Hi) as (vi & Hvi & _).
  destruct (valid_index_lookup V _ Hj) as (vj & Hvj & _).
  destruct (valid_index_lookup V _ Hk) as (vk & Hvk & _).
  destruct (face_block_drawn V F n _ vi vj vk HF Hacc Hn Hvi Hvj Hvk)
    as (H0 & H1 & H2).
  simpl in Hvi, Hvj, Hvk.
  unfold has_edge, edges in He. simpl in He.
  rewrite !elem_of_cons, !elem_of_nil in He.
  unfold joins, segment.
  destruct He as [[He|[He|[He|[]]]]|[He|[He|[He|[]]]]];
    injection He as -> ->;
    repeat match goal with
           | H1 : V !! ?x = Some ?u, H2 : V !! ?x = Some ?v |- _ =>
               assert (u = v) by congruence; subst u; clear H2
           end.
  all: first
    [ exists (3 * n); eexists; split; [lia|]; split; [exact H0|];
      first [left; reflexivity|right; reflexivity]
    | exists (3 * n + 1); eexists; split; [lia|]; split; [exact H1|];
      first [left; reflexivity|right; reflexivity]
    | exists (3 * n + 2); eexists; split; [lia|]; split; [exact H2|];
      first [left; reflexivity|right; reflexivity] ].
Qed.

(** C2: for a mesh whose indices are all valid, when the plotting library
    accepts the draw calls of the contract, the canvas receives exactly
    3 * |F| draw calls, and nothing is shared between faces: when two
    different faces both have the edge between vertices a and b, each of
    them issues its own draw call for it, inside its own block of three, so
    that edge is drawn twice. *)
Theorem draw_count_no_dedup (V : list arr3) (F : list face) :
  Forall (valid_face V) F ->
  accepted prologue (spec_draw_sequence V F) ->
  length (plots (canvas (run V F).2)) = 3 * length F /\
  forall (n1 n2 : nat) (f g : face) (a b : Z) (va vb : arr3),
    n1 <> n2 ->
    F !! n1 = Some f ->
    F !! n2 = Some g ->
    has_edge f a b ->
    has_edge g a b ->
    V !! Z.to_nat a = Some va ->
    V !! Z.to_nat b = Some vb ->
    exists (m1 m2 : nat) (c1 c2 : call),
      m1 <> m2 /\
      3 * n1 <= m1 < 3 * n1 + 3 /\
      3 * n2 <= m2 < 3 * n2 + 3 /\
      plots (canvas (run V F).2) !! m1 = Some c1 /\
      plots (canvas (run V F).2) !! m2 = Some c2 /\
      joins va vb c1 /\ joins va vb c2.
Proof.
  intros HF Hacc. split; [apply run_valid_ok; assumption|].
  intros n1 n2 f g a b va vb Hne Hf Hg Hef Heg Ha Hb.
  destruct (edge_drawn_by_face V F n1 f a b va vb HF Hacc Hf Hef Ha Hb)
    as (m1 & c1 & Hm1 & Hc1 & Hj1).
  destruct (edge_drawn_by_face V F n2 g a b va vb HF Hacc Hg Heg Ha Hb)
    as (m2 & c2 & Hm2 & Hc2 & Hj2).
  exists m1, m2, c1, c2. repeat split; try assumption; lia.
Qed.

(** ** Failure on a refused index *)



Lemma not_shown (cs : list call) : plt_show ∉ cs -> displayed cs = None.
Proof.
  induction cs as [|c cs IH]; [reflexivity|].
  rewrite not_elem_of_cons. intros [Hc Hcs].
  destruct c; simpl; try (rewrite (IH Hcs); reflexivity). congruence.
Qed.

Lemma plot_not_show (cs : list call) :
  Forall (fun c => is_plot c = true) cs -> plt_show ∉ cs.
Proof.
  intros Hall Hin. rewrite Forall_forall in Hall.
  specialize (Hall _ Hin). discriminate.
Qed.

Lemma stopped_not_shown (V : list arr3) (F : list face) :
  plt_show ∉ prologue ++ (drawn V F).1.
Proof.
  rewrite not_elem_of_app. split.
  - unfold prologue. rewrite !not_elem_of_cons. repeat split; try discriminate.
    apply not_elem_of_nil.
  - apply plot_not_show, drawn_plots.
Qed.



(** ** The empty face list *)

(** C4: with no faces the script issues no draw call, still sets the
    labels and the camera, opens the viewer and ends normally, whatever
    the vertex list is. *)
Theorem no_faces_opens_empty_viewer (V : list arr3) :
  run V [] = (Ok tt, World V [] (prologue ++ epilogue)) /\
  plots (canvas (run V []).2) = [] /\
  displayed (canvas (run V []).2) =
    Some (prologue ++ [ax_set_xlabel "X"; ax_set_ylabel "Y"; ax_set_zlabel "Z";
                       ax_view_init 20 45]).
Proof. repeat split. Qed.

(** ** Order of the draw calls *)



(** ** The viewer: labels and camera *)

Lemma displayed_before_show (cs rest : list call) :
  plt_show ∉ cs -> displayed (cs ++ plt_show :: rest) = Some cs.
Proof.
  induction cs as [|c cs IH]; [reflexivity|].
  rewrite not_elem_of_cons. intros [Hc Hcs].
  destruct c; simpl; try (rewrite (IH Hcs); reflexivity). congruence.
Qed.

(** The calls before the display call in a run that gets through. *)
Lemma displayed_run (V : list arr3) (F : list face) :
  displayed (canvas (run V F).2) =
    if (drawn V F).2 && (pass_calls V F).2
    then Some (prologue ++ (drawn V F).1 ++
               [ax_set_xlabel "X"; ax_set_ylabel "Y"; ax_set_zlabel "Z";
                ax_view_init 20 45])
    else None.
Proof.
  rewrite canvas_run. destruct ((drawn V F).2 && (pass_calls V F).2).
  - unfold epilogue.
    change [ax_set_xlabel "X"; ax_set_ylabel "Y"; ax_set_zlabel "Z";
            ax_view_init 20 45; plt_show]
      with ([ax_set_xlabel "X"; ax_set_ylabel "Y"; ax_set_zlabel "Z";
             ax_view_init 20 45] ++ [plt_show]).
    rewrite !app_assoc. apply displayed_before_show.
    rewrite not_elem_of_app. split; [apply stopped_not_shown|].
    rewrite !not_elem_of_cons. repeat split; try discriminate.
    apply not_elem_of_nil.
  - rewrite app_nil_r. apply not_shown, stopped_not_shown.
Qed.

Lemma omap_plots {A} (arg : call -> option A) (cs : list call) :
  (forall c, is_plot c = true -> arg c = None) ->
  Forall (fun c => is_plot c = true) cs ->
  omap arg cs = [].
Proof.
  intros Harg. induction 1 as [|c cs Hc _ IH]; [reflexivity|].
  simpl. rewrite (Harg c Hc). exact IH.
Qed.

Lemma last_set_run {A} (arg : call -> option A) (V : list arr3) (F : list face) :
  (forall c, is_plot c = true -> arg c = None) ->
  last_set arg (prologue ++ (drawn V F).1 ++
                [ax_set_xlabel "X"; ax_set_ylabel "Y"; ax_set_zlabel "Z";
                 ax_view_init 20 45]) =
  last_set arg (prologue ++
                [ax_set_xlabel "X"; ax_set_ylabel "Y"; ax_set_zlabel "Z";
                 ax_view_init 20 45]).
Proof.
  intros Harg. unfold last_set.
  rewrite !omap_app, (omap_plots arg _ Harg (drawn_plots V F)).
  reflexivity.
Qed.

Lemma not_plot_arg (c : call) :
  is_plot c = true ->
  xlabel_arg c = None /\ ylabel_arg c = None /\ zlabel_arg c = None /\
  view_arg c = None.
Proof. destruct c; try discriminate. repeat split. Qed.

(** C6: whenever the viewer is opened, the labels that the calls before
    the display call have left on the axes are "X", "Y" and "Z", whatever
    the vertices and faces are; and the viewer is opened in every run that
    ends normally, in particular for the mesh with no faces. *)
Theorem axis_labels_fixed (V : list arr3) (F : list face) :
  (forall shown : list call,
     displayed (canvas (run V F).2) = Some shown ->
     last_set xlabel_arg shown = Some "X" /\
     last_set ylabel_arg shown = Some "Y" /\
     last_set zlabel_arg shown = Some "Z") /\
  ((run V F).1 = Ok tt -> is_Some (displayed (canvas (run V F).2))).
Proof.
  rewrite displayed_run. split.
  - intros shown Hshown.
    destruct ((drawn V F).2 && (pass_calls V F).2); [|discriminate].
    apply (inj Some) in Hshown. subst shown.
    rewrite !last_set_run by (intros c Hc; apply (not_plot_arg c Hc)).
    repeat split.
  - intros Hok. apply result_run_ok in Hok as [-> ->]. eexists. reflexivity.
Qed.

(** C7: the camera is set once, to elevation 20 and azimuth 45, whatever
    the mesh is: no other view is ever requested, the view in force when
    the viewer opens is (20, 45), and in a run that ends normally the call
    comes after every draw call and right before the display call. *)
Theorem camera_fixed (V : list arr3) (F : list face) :
  (forall e a : Z,
     ax_view_init e a ∈ canvas (run V F).2 -> e = 20%Z /\ a = 45%Z) /\
  (forall shown : list call,
     displayed (canvas (run V F).2) = Some shown ->
     last_set view_arg shown = Some (20%Z, 45%Z)) /\
  ((run V F).1 = Ok tt ->
     canvas (run V F).2 =
       prologue ++ plots (canvas (run V F).2) ++
       [ax_set_xlabel "X"; ax_set_ylabel "Y"; ax_set_zlabel "Z"] ++
       [ax_view_init 20 45; plt_show]).
Proof.
  split; [|split].
  - intros e a. rewrite canvas_run, !elem_of_app.
    intros [Hin|[Hin|Hin]].
    + unfold prologue in Hin. rewrite !elem_of_cons, elem_of_nil in Hin.
      destruct Hin as [Hin|[Hin|[]]]; discriminate.
    + pose proof (drawn_plots V F) as Hall. rewrite Forall_forall in Hall.
      specialize (Hall _ Hin). discriminate.
    + destruct ((drawn V F).2 && (pass_calls V F).2);
        [|apply elem_of_nil in Hin; destruct Hin].
      unfold epilogue in Hin. rewrite !elem_of_cons, elem_of_nil in Hin.
      destruct Hin as [Hin|[Hin|[Hin|[Hin|[Hin|[]]]]]]; try discriminate.
      injection Hin as -> ->. split; reflexivity.
  - intros shown. rewrite displayed_run.
    destruct ((drawn V F).2 && (pass_calls V F).2); [|discriminate].
    intros Hshown. apply (inj Some) in Hshown. subst shown.
    rewrite last_set_run by (intros c Hc; apply (not_plot_arg c Hc)).
    reflexivity.
  - intros Hok. apply result_run_ok in Hok as [Hd Hthrough].
    rewrite plots_run, canvas_run, Hd, Hthrough. reflexivity.
Qed.

(** ** Style of the draw calls *)

Lemma pass_calls_segments (V : list arr3) (F : list face) :
  Forall (fun c => exists p q, c = segment p q) (pass_calls V F).1.
Proof.
  induction F as [|f F IH]; simpl; [constructor|].
  destruct (face_calls V f) as [cs|] eqn:Hf; simpl; [|constructor].
  apply face_calls_three in Hf as (p & q & r & _ & _ & _ & ->).
  repeat (constructor; [eexists _, _; reflexivity|]). exact IH.
Qed.

Lemma drawn_segments (V : list arr3) (F : list face) :
  Forall (fun c => exists p q, c = segment p q) (drawn V F).1.
Proof.
  exact (prefix_Forall _ _ _ (drawn_prefix V F) (pass_calls_segments V F)).
Qed.

(** C8: every draw call on the canvas of a run, whether the run gets
    through or stops at a refused face, has the line style "b-" and the
    alpha 0.5, whatever face and vertices it comes from. *)
Theorem plot_style_fixed (V : list arr3) (F : list face)
    (xs ys zs : list coord) (fmt : string) (alpha : float) :
  ax_plot xs ys zs fmt alpha ∈ canvas (run V F).2 ->
  fmt = "b-" /\ alpha = 0.5%float.
Proof.
  rewrite canvas_run, !elem_of_app. intros [Hin|[Hin|Hin]].
  - unfold prologue in Hin. rewrite !elem_of_cons, elem_of_nil in Hin.
    destruct Hin as [Hin|[Hin|[]]]; discriminate.
  - pose proof (drawn_segments V F) as Hall. rewrite Forall_forall in Hall.
    destruct (Hall _ Hin) as (p & q & Hseg).
    unfold segment in Hseg. injection Hseg as _ _ _ -> ->. split; reflexivity.
  - destruct ((drawn V F).2 && (pass_calls V F).2);
      [|apply elem_of_nil in Hin; destruct Hin].
    unfold epilogue in Hin. rewrite !elem_of_cons, elem_of_nil in Hin.
    destruct Hin as [Hin|[Hin|[Hin|[Hin|[Hin|[]]]]]]; discriminate.
Qed.

(** ** The mesh is only read *)

(** C9: the drawing pass leaves the vertex list and the face list as they
    were, whether it gets through or stops at a refused face; the canvas
    is the only component that changes, and it only grows. The same holds
    for the whole script. *)
Theorem draw_pass_preserves_mesh (w : world) :
  vertices (draw_pass w).2 = vertices w /\
  faces (draw_pass w).2 = faces w /\
  (exists cs : list call, canvas (draw_pass w).2 = canvas w ++ cs) /\
  vertices (main w).2 = vertices w /\
  faces (main w).2 = faces w.
Proof.
  rewrite draw_pass_spec, main_spec. cbn [snd].
  split; [reflexivity|]. split; [reflexivity|].
  split; [eexists; reflexivity|]. split; reflexivity.
Qed.

(** ** Negative indices *)






(** ** Further properties of the drawing pass *)

Lemma pass_calls_app (V : list arr3) (F1 F2 : list face) :
  pass_calls V (F1 ++ F2) =
    if (pass_calls V F1).2
    then ((pass_calls V F1).1 ++ (pass_calls V F2).1, (pass_calls V F2).2)
    else ((pass_calls V F1).1, false).
Proof.
  induction F1 as [|f F1 IH]; simpl.
  - destruct (pass_calls V F2); reflexivity.
  - destruct (face_calls V f) as [cs|]; simpl; [|reflexivity].
    rewrite IH. destruct ((pass_calls V F1).2); simpl; [|reflexivity].
    rewrite app_assoc. reflexivity.
Qed.

(** X1: the pass composes over a split of the face list. When the pass
    over F1 ends normally, the pass over F1 ++ F2 from the same canvas
    ends as the pass over F2 does when it continues on the canvas that the
    pass over F1 has left, and leaves the same canvas. *)
Theorem pass_app_continues (V : list arr3) (F1 F2 : list face)
    (cs : list call) :
  (draw_pass (World V F1 cs)).1 = Ok tt ->
  (draw_pass (World V (F1 ++ F2) cs)).1 =
    (draw_pass (World V F2 (canvas (draw_pass (World V F1 cs)).2))).1 /\
  canvas (draw_pass (World V (F1 ++ F2) cs)).2 =
    canvas (draw_pass (World V F2 (canvas (draw_pass (World V F1 cs)).2))).2.
Proof.
  rewrite !draw_pass_spec. cbn [fst snd vertices faces canvas add_calls].
  intros Hok.
  destruct ((issue cs (pass_calls V F1).1).2) eqn:Hacc; [|discriminate].
  destruct ((pass_calls V F1).2) eqn:Hthrough; [|discriminate].
  rewrite pass_calls_app, Hthrough. cbn [fst snd].
  rewrite issue_app, Hacc, (issue_accepted _ _ Hacc). cbn [fst snd].
  rewrite app_assoc. split; reflexivity.
Qed.

(** X2: the faces after a refused one play no part. When the run on F1
    ends in IndexError, the run on F1 ++ F2 ends in IndexError with the
    same canvas, whatever F2 is. *)
Theorem run_app_refused (V : list arr3) (F1 F2 : list face) :
  (run V F1).1 = Raise IndexError ->
  (run V (F1 ++ F2)).1 = Raise IndexError /\
  canvas (run V (F1 ++ F2)).2 = canvas (run V F1).2.
Proof.
  intros H1. apply result_run_index in H1 as [Hd Hstop].
  rewrite result_run, !canvas_run. unfold drawn in *.
  rewrite pass_calls_app, Hstop. cbn [fst snd].
  rewrite Hd. split; reflexivity.
Qed.

Lemma pass_calls_count (V : list arr3) (F : list face) :
  exists k : nat,
    k <= length F /\
    length (pass_calls V F).1 = 3 * k /\
    Forall (in_bounds_face V) (take k F) /\
    ((pass_calls V F).2 = true <-> k = length F).
Proof.
  induction F as [|f F IH]; simpl.
  - exists 0. repeat split; constructor.
  - destruct (face_calls V f) as [cs|] eqn:Hf; simpl.
    + destruct IH as (k & Hk & Hlen & Hpre & Hall).
      apply face_calls_three in Hf as Hcs.
      destruct Hcs as (p & q & r & _ & _ & _ & ->).
      exists (S k). split; [lia|]. split; [simpl; lia|]. split.
      * simpl. constructor; [|exact Hpre].
        apply face_calls_in_bounds. rewrite Hf. eexists. reflexivity.
      * rewrite Hall. lia.
    + exists 0. split; [lia|]. split; [reflexivity|].
      split; [constructor|]. split; [discriminate|lia].
Qed.

(** X3: a refused index never leaves a face partly drawn. In every run
    that does not end in the ValueError of a draw call, the number of draw
    calls is 3 * k where k is a number of leading faces of F, all of them
    accepted; k is the number of all faces exactly when the run ends
    normally. A refused face contributes no call. *)
Theorem faces_drawn_whole (V : list arr3) (F : list face) :
  (run V F).1 <> Raise ValueError ->
  exists k : nat,
    k <= length F /\
    length (plots (canvas (run V F).2)) = 3 * k /\
    Forall (in_bounds_face V) (take k F) /\
    ((run V F).1 = Ok tt <-> k = length F).
Proof.
  intros Hval.
  assert (Hd : (drawn V F).2 = true).
  { destruct ((drawn V F).2) eqn:Hd; [reflexivity|].
    destruct Hval. apply result_run_value, Hd. }
  destruct (pass_calls_count V F) as (k & Hk & Hlen & Hpre & Hall).
  exists k. rewrite plots_run, (drawn_accepted V F Hd), result_run_ok, Hd.
  split; [exact Hk|]. split; [exact Hlen|]. split; [exact Hpre|].
  rewrite <- Hall. tauto.
Qed.

Lemma vertex_at_lookup (V : list arr3) (t : Z) (p : arr3) :
  vertex_at V t = Some p -> V !! resolve V t = Some p /\ p ∈ V.
Proof.
  intros Hp. pose proof (vertex_at_Some_in_bounds V t p Hp) as Hb.
  destruct (vertex_at_in_bounds V t Hb) as (q & Hq & Hl).
  assert (q = p) as -> by congruence.
  split; [exact Hl|]. apply list_elem_of_lookup. eexists. exact Hl.
Qed.

Lemma pass_calls_block (V : list arr3) (F : list face) (n : nat) :
  3 * n < length (pass_calls V F).1 ->
  exists (f : face) (p q r : arr3),
    F !! n = Some f /\
    vertex_at V (ix0 f) = Some p /\
    vertex_at V (ix1 f) = Some q /\
    vertex_at V (ix2 f) = Some r /\
    (pass_calls V F).1 !! (3 * n) = Some (segment p q) /\
    (pass_calls V F).1 !! (3 * n + 1) = Some (segment q r) /\
    (pass_calls V F).1 !! (3 * n + 2) = Some (segment r p).
Proof.
  revert n. induction F as [|g F IH]; intros n; cbn [pass_calls].
  - simpl. lia.
  - destruct (face_calls V g) as [cs|] eqn:Hg; cbn [fst snd]; [|simpl; lia].
    apply face_calls_three in Hg as (p & q & r & Hp & Hq & Hr & ->).
    destruct n as [|n].
    + intros _. exists g, p, q, r. repeat split; assumption.
    + intros Hlen. simpl in Hlen.
      destruct (IH n) as (f & p' & q' & r' & Hf & Hp' & Hq' & Hr' & Ha & Hb & Hc);
        [lia|].
      exists f, p', q', r'.
      replace (3 * S n) with (S (S (S (3 * n)))) by lia.
      repeat split; assumption.
Qed.

(** X4: in every run, failed or not, a block of three draw calls that
    was made in full is the closed triangle of its face: when the draw
    call number 3n+2 was made, the calls number 3n, 3n+1 and 3n+2 are the
    segments p->q, q->r, r->p where p, q, r are the entries of the vertex
    list that the three indices of the n-th face resolve to, so each
    segment starts where the one before it ends. *)
Theorem blocks_are_closed_triangles (V : list arr3) (F : list face) (n : nat) :
  3 * n + 2 < length (plots (canvas (run V F).2)) ->
  exists (f : face) (p q r : arr3),
    F !! n = Some f /\
    V !! resolve V (ix0 f) = Some p /\
    V !! resolve V (ix1 f) = Some q /\
    V !! resolve V (ix2 f) = Some r /\
    plots (canvas (run V F).2) !! (3 * n) = Some (segment p q) /\
    plots (canvas (run V F).2) !! (3 * n + 1) = Some (segment q r) /\
    plots (canvas (run V F).2) !! (3 * n + 2) = Some (segment r p).
Proof.
  rewrite plots_run. intros Hlen.
  pose proof (drawn_prefix V F) as Hpre.
  pose proof (prefix_length _ _ Hpre) as Hle.
  destruct (pass_calls_block V F n)
    as (f & p & q & r & Hf & Hp & Hq & Hr & Ha & Hb & Hc); [lia|].
  exists f, p, q, r.
  split; [exact Hf|].
  split; [apply (vertex_at_lookup V _ p Hp)|].
  split; [apply (vertex_at_lookup V _ q Hq)|].
  split; [apply (vertex_at_lookup V _ r Hr)|].
  assert (H0 : 3 * n < length (drawn V F).1) by lia.
  assert (H1 : 3 * n + 1 < length (drawn V F).1) by lia.
  rewrite (prefix_lookup_lt _ _ _ H0 Hpre), (prefix_lookup_lt _ _ _ H1 Hpre),
    (prefix_lookup_lt _ _ _ Hlen Hpre).
  split; [exact Ha|]. split; [exact Hb|exact Hc].
Qed.

Lemma pass_calls_from_vertices (V : list arr3) (F : list face) :
  Forall (fun c => exists p q, p ∈ V /\ q ∈ V /\ c = segment p q)
    (pass_calls V F).1.
Proof.
  induction F as [|f F IH]; simpl; [constructor|].
  destruct (face_calls V f) as [cs|] eqn:Hf; simpl; [|constructor].
  apply face_calls_three in Hf as (p & q & r & Hp & Hq & Hr & ->).
  apply vertex_at_lookup in Hp as [_ Hp].
  apply vertex_at_lookup in Hq as [_ Hq].
  apply vertex_at_lookup in Hr as [_ Hr].
  repeat (constructor; [eexists _, _; repeat split; eassumption|]). exact IH.
Qed.

(** X5: the script never draws a point that is not a vertex. Every draw
    call of every run joins two entries p and q of the vertex list: its x
    list is the x of p then the x of q, and likewise for y and z, so each
    coordinate list has two entries and the coordinates of an endpoint
    come from one and the same vertex. *)
Theorem plot_endpoints_are_vertices (V : list arr3) (F : list face)
    (xs ys zs : list coord) (fmt : string) (alpha : float) :
  ax_plot xs ys zs fmt alpha ∈ canvas (run V F).2 ->
  exists p q : arr3,
    p ∈ V /\ q ∈ V /\
    xs = [p.[0]; q.[0]] /\ ys = [p.[1]; q.[1]] /\ zs = [p.[2]; q.[2]].
Proof.
  intros Hin.
  assert (Hplot : ax_plot xs ys zs fmt alpha ∈ plots (canvas (run V F).2)).
  { unfold plots. apply list_elem_of_In, List.filter_In.
    split; [apply list_elem_of_In, Hin|reflexivity]. }
  rewrite plots_run in Hplot.
  pose proof (prefix_Forall _ _ _ (drawn_prefix V F)
                (pass_calls_from_vertices V F)) as Hall.
  rewrite Forall_forall in Hall.
  destruct (Hall _ Hplot) as (p & q & Hp & Hq & Hseg).
  unfold segment in Hseg. injection Hseg as -> -> -> _ _.
  exists p, q. repeat split; assumption.
Qed.

(** ** Independence from what the faces do not use *)

Lemma vertex_at_app (V W : list arr3) (t : Z) :
  valid_index V t -> vertex_at (V ++ W) t = vertex_at V t.
Proof.
  intros Hv. destruct (valid_index_lookup V t Hv) as (p & Hl & ->).
  apply vertex_at_valid; [apply Hv|].
  apply lookup_app_l_Some, Hl.
Qed.

Lemma pass_calls_app_vertices (V W : list arr3) (F : list face) :
  Forall (valid_face V) F -> pass_calls (V ++ W) F = pass_calls V F.
Proof.
  induction 1 as [|f F (H0 & H1 & H2) _ IH]; [reflexivity|].
  simpl. unfold face_calls.
  rewrite !vertex_at_app by assumption. rewrite IH. reflexivity.
Qed.

(** X6: vertices that no face uses do not matter. For a face list whose
    indices are all positions of V, adding further vertices after those of
    V changes neither the outcome nor any call on the canvas. *)
Theorem unused_vertices_ignored (V W : list arr3) (F : list face) :
  Forall (valid_face V) F ->
  (run (V ++ W) F).1 = (run V F).1 /\
  canvas (run (V ++ W) F).2 = canvas (run V F).2.
Proof.
  intros HF. rewrite !result_run, !canvas_run. unfold drawn.
  rewrite (pass_calls_app_vertices V W F HF). split; reflexivity.
Qed.

Lemma pass_calls_through_perm (V : list arr3) (F F' : list face) :
  Permutation F F' -> (pass_calls V F).2 = (pass_calls V F').2.
Proof.
  intros HP.
  pose proof (pass_calls_through V F) as H1.
  pose proof (pass_calls_through V F') as H2.
  destruct ((pass_calls V F).2), ((pass_calls V F').2); try reflexivity.
  - assert (Hall : Forall (in_bounds_face V) F') by
      (apply (Permutation_Forall HP); apply H1; reflexivity).
    apply H2 in Hall. discriminate.
  - assert (Hall : Forall (in_bounds_face V) F) by
      (apply (Permutation_Forall (Permutation_sym HP)); apply H2; reflexivity).
    apply H1 in Hall. discriminate.
Qed.

Lemma pass_calls_perm (V : list arr3) (F F' : list face) :
  Permutation F F' ->
  Forall (in_bounds_face V) F ->
  Permutation (pass_calls V F).1 (pass_calls V F').1.
Proof.
  induction 1 as [|f F F' HP IH|f g F|F F' F'' HP1 IH1 HP2 IH2]; intros Hall.
  - reflexivity.
  - inversion Hall as [|? ? Hf HF]; subst.
    apply face_calls_in_bounds in Hf as [cs Hcs].
    simpl. rewrite Hcs. simpl. apply Permutation_app_head, IH, HF.
  - inversion Hall as [|? ? Hg HF]; subst.
    inversion HF as [|? ? Hf HF']; subst.
    apply face_calls_in_bounds in Hf as [cs Hcs].
    apply face_calls_in_bounds in Hg as [ds Hds].
    simpl. rewrite Hcs, Hds. simpl. apply Permutation_app_swap_app.
  - etransitivity; [apply IH1, Hall|].
    apply IH2. apply (Permutation_Forall HP1), Hall.
Qed.

(** X7: the order of the faces does not change what is drawn. When the
    runs on two face lists that are permutations of each other both end
    normally, the draw calls of one are a permutation of those of the
    other; and when one of them ends in IndexError the other cannot end
    normally. *)
Theorem face_order_irrelevant (V : list arr3) (F F' : list face) :
  Permutation F F' ->
  ((run V F).1 = Ok tt ->
   (run V F').1 = Ok tt ->
   Permutation (plots (canvas (run V F).2)) (plots (canvas (run V F').2))) /\
  ((run V F).1 = Raise IndexError -> (run V F').1 <> Ok tt).
Proof.
  intros HP. split.
  - intros Hok Hok'.
    apply result_run_ok in Hok as [Hd Hthrough].
    apply result_run_ok in Hok' as [Hd' _].
    rewrite !plots_run, (drawn_accepted _ _ Hd), (drawn_accepted _ _ Hd').
    apply pass_calls_perm; [exact HP|]. apply pass_calls_through, Hthrough.
  - intros Hidx Hok'.
    apply result_run_index in Hidx as [_ Hstop].
    apply result_run_ok in Hok' as [_ Hthrough'].
    rewrite (pass_calls_through_perm V F F' HP) in Hstop. congruence.
Qed.

Lemma face_calls_rotate (V : list arr3) (f : face) :
  face_calls V (rotate_face f) =
    match face_calls V f with
    | Some [a; b; c] => Some [b; c; a]
    | _ => None
    end.
Proof.
  unfold face_calls, rotate_face. simpl.
  destruct (vertex_at V (ix0 f)) as [p|], (vertex_at V (ix1 f)) as [q|],
    (vertex_at V (ix2 f)) as [r|]; reflexivity.
Qed.

Lemma pass_calls_rotate (V : list arr3) (pre post : list face) (f : face) :
  Permutation (pass_calls V (pre ++ rotate_face f :: post)).1
    (pass_calls V (pre ++ f :: post)).1.
Proof.
  rewrite !pass_calls_app.
  destruct ((pass_calls V pre).2); [|reflexivity].
  cbn [pass_calls]. rewrite face_calls_rotate.
  destruct (face_calls V f) as [cs|] eqn:Hf; [|reflexivity].
  apply face_calls_three in Hf as (p & q & r & _ & _ & _ & ->).
  cbn [fst snd].
  apply Permutation_app_head, Permutation_app_tail.
  symmetry. apply (Permutation_cons_append [segment q r; segment r p]).
Qed.

(** X8: the vertex a face starts from does not change what is drawn.
    When the run on a face list and the run on the list with one face
    (i, j, k) replaced by (j, k, i) both end normally, their draw calls
    are the same up to their order. *)
Theorem face_rotation_irrelevant (V : list arr3) (pre post : list face)
    (f : face) :
  (run V (pre ++ rotate_face f :: post)).1 = Ok tt ->
  (run V (pre ++ f :: post)).1 = Ok tt ->
  Permutation (plots (canvas (run V (pre ++ rotate_face f :: post)).2))
    (plots (canvas (run V (pre ++ f :: post)).2)).
Proof.
  intros Hok Hok'.
  apply result_run_ok in Hok as [Hd _].
  apply result_run_ok in Hok' as [Hd' _].
  rewrite !plots_run, (drawn_accepted _ _ Hd), (drawn_accepted _ _ Hd').
  apply pass_calls_rotate.
Qed.

(** ** Transformations of the mesh *)

Lemma vertex_at_fmap (g : arr3 -> arr3) (V : list arr3) (t : Z) :
  vertex_at (g <$> V) t = g <$> vertex_at V t.
Proof.
  unfold vertex_at. rewrite length_fmap.
  destruct (axis_index (Z.of_nat (length V)) t) as [k|e]; [|reflexivity].
  apply list_lookup_fmap.
Qed.

Lemma pass_calls_fmap (gx gy gz : coord -> coord) (V : list arr3)
    (F : list face) :
  pass_calls (map_vertex gx gy gz <$> V) F =
    (map_call gx gy gz <$> (pass_calls V F).1, (pass_calls V F).2).
Proof.
  induction F as [|f F IH]; [reflexivity|].
  cbn [pass_calls]. unfold face_calls. rewrite !vertex_at_fmap.
  destruct (vertex_at V (ix0 f)) as [p|], (vertex_at V (ix1 f)) as [q|],
    (vertex_at V (ix2 f)) as [r|]; try reflexivity.
  cbn [fmap option_fmap option_map]. rewrite IH. cbn [fst snd].
  rewrite fmap_app. reflexivity.
Qed.

(** X9: the renderer commutes with any transformation of the mesh that
    acts on each axis separately (a scaling, a translation, a mirror).
    When the run on the transformed vertices and the run on the original
    ones both end normally, the canvas of the first is that of the second
    with the transformation applied to the coordinates of every draw call;
    the other calls are the same. *)
Theorem run_map_vertices (gx gy gz : coord -> coord) (V : list arr3)
    (F : list face) :
  (run (map_vertex gx gy gz <$> V) F).1 = Ok tt ->
  (run V F).1 = Ok tt ->
  canvas (run (map_vertex gx gy gz <$> V) F).2 =
    map_call gx gy gz <$> canvas (run V F).2.
Proof.
  intros Hok Hok'.
  apply result_run_ok in Hok as [Hd Hthrough].
  apply result_run_ok in Hok' as [Hd' Hthrough'].
  rewrite !canvas_run, Hd, Hd', Hthrough, Hthrough'.
  rewrite (drawn_accepted _ _ Hd), (drawn_accepted _ _ Hd'), pass_calls_fmap.
  cbn [fst snd andb]. rewrite !fmap_app. reflexivity.
Qed.

(** ** Outcome of a run and the viewer *)

(** X10: the viewer is opened exactly when the run ends normally. The
    display call is on the canvas if and only if the run ends normally,
    and it is then the last of 3 * |F| + 7 calls. *)
Theorem viewer_opens_iff_ok (V : list arr3) (F : list face) :
  (plt_show ∈ canvas (run V F).2 <-> (run V F).1 = Ok tt) /\
  ((run V F).1 = Ok tt ->
   last (canvas (run V F).2) = Some plt_show /\
   length (canvas (run V F).2) = 3 * length F + 7).
Proof.
  rewrite result_run_ok, canvas_run.
  destruct ((drawn V F).2) eqn:Hd, ((pass_calls V F).2) eqn:Hthrough;
    cbn [andb].
  - split.
    + split; [intros _; split; reflexivity|]. intros _.
      rewrite !elem_of_app. right. right. unfold epilogue.
      do 4 apply list_elem_of_further. apply list_elem_of_here.
    + intros _. split.
      * rewrite !app_assoc, last_app. reflexivity.
      * rewrite (drawn_accepted V F Hd), !length_app,
          (pass_calls_length V F Hthrough). simpl. lia.
  - split; [|intros []; discriminate]. split; [|intros []; discriminate].
    rewrite app_nil_r. intros Hin. destruct (stopped_not_shown V F Hin).
  - split; [|intros []; discriminate]. split; [|intros []; discriminate].
    rewrite app_nil_r. intros Hin. destruct (stopped_not_shown V F Hin).
  - split; [|intros []; discriminate]. split; [|intros []; discriminate].
    rewrite app_nil_r. intros Hin. destruct (stopped_not_shown V F Hin).
Qed.

Lemma vertex_at_no_vertices (t : Z) : vertex_at [] t = None.
Proof. apply vertex_at_out. simpl. lia. Qed.

(** X11: with an empty vertex list every index is refused, so any face
    list that is not empty fails at its first face: the run ends in
    IndexError with only the two set-up calls on the canvas. *)
Theorem no_vertices_fails_at_first_face (f : face) (F : list face) :
  run [] (f :: F) = (Raise IndexError, World [] (f :: F) prologue).
Proof.
  rewrite run_spec. unfold drawn. cbn [pass_calls]. unfold face_calls.
  rewrite vertex_at_no_vertices. reflexivity.
Qed.

(** X12: when the run fails, nothing after the drawing pass has been
    executed. The canvas then holds the two set-up calls followed by draw
    calls only, and neither a label nor the camera has been set. *)
Theorem failed_run_sets_nothing (V : list arr3) (F : list face) :
  (run V F).1 = Raise IndexError ->
  canvas (run V F).2 = prologue ++ plots (canvas (run V F).2) /\
  last_set xlabel_arg (canvas (run V F).2) = None /\
  last_set ylabel_arg (canvas (run V F).2) = None /\
  last_set zlabel_arg (canvas (run V F).2) = None /\
  last_set view_arg (canvas (run V F).2) = None.
Proof.
  intros Hfail. apply result_run_index in Hfail as [_ Hstop].
  rewrite plots_run, canvas_run, Hstop, andb_false_r, app_nil_r.
  split; [reflexivity|]. unfold last_set. rewrite !omap_app.
  rewrite !(omap_plots _ (drawn V F).1);
    try (apply drawn_plots); try (intros c Hc; apply (not_plot_arg c Hc)).
  repeat split.
Qed.

(** ** The three lookups of a face *)

(** X13: the y and z lookups of a face cannot fail once the x lookup has
    succeeded, and the three arrays describe the same three vertices:
    entry n of x, y and z holds the three coordinates of the vertex-list
    entry that the n-th index of the face resolves to. *)
Theorem lookups_agree (V : list arr3) (f : face) (x : arr3) :
  fancy_index V f 0 = Ok x ->
  exists p q r : arr3,
    V !! resolve V (ix0 f) = Some p /\
    V !! resolve V (ix1 f) = Some q /\
    V !! resolve V (ix2 f) = Some r /\
    x = Arr3 p.[0] q.[0] r.[0] /\
    fancy_index V f 1 = Ok (Arr3 p.[1] q.[1] r.[1]) /\
    fancy_index V f 2 = Ok (Arr3 p.[2] q.[2] r.[2]).
Proof.
  intros Hx. pose proof (fancy_index_face_calls V f) as H.
  destruct (vertex_at V (ix0 f)) as [p|] eqn:Hp; [|congruence].
  destruct (vertex_at V (ix1 f)) as [q|] eqn:Hq; [|congruence].
  destruct (vertex_at V (ix2 f)) as [r|] eqn:Hr; [|congruence].
  destruct H as (H0 & H1 & H2). exists p, q, r.
  split; [apply (vertex_at_lookup V _ p Hp)|].
  split; [apply (vertex_at_lookup V _ q Hq)|].
  split; [apply (vertex_at_lookup V _ r Hr)|].
  split; [congruence|]. split; assumption.
Qed.

(** ** Negative indices are aliases *)

Lemma vertex_at_resolved (V : list arr3) (t : Z) :
  in_bounds V t ->
  valid_index V (Z.of_nat (resolve V t)) /\
  vertex_at V (Z.of_nat (resolve V t)) = vertex_at V t.
Proof.
  intros Hb. destruct (vertex_at_in_bounds V t Hb) as (p & -> & Hl).
  split.
  - apply lookup_lt_Some in Hl. unfold valid_index. lia.
  - apply vertex_at_valid; [lia|]. rewrite Nat2Z.id. exact Hl.
Qed.

Lemma pass_calls_normalise (V : list arr3) (F : list face) :
  Forall (in_bounds_face V) F ->
  pass_calls V (normalise_face V <$> F) = pass_calls V F.
Proof.
  induction 1 as [|f F (H0 & H1 & H2) _ IH]; [reflexivity|].
  cbn [fmap list_fmap pass_calls]. unfold face_calls, normalise_face.
  cbn [ix0 ix1 ix2].
  rewrite (proj2 (vertex_at_resolved V _ H0)), (proj2 (vertex_at_resolved V _ H1)),
    (proj2 (vertex_at_resolved V _ H2)).
  fold (normalise_face V). change (list_fmap _ _ (normalise_face V) F)
    with (normalise_face V <$> F).
  rewrite IH. reflexivity.
Qed.

(** X14: an accepted negative index is an alias of a position. Replacing
    every index of an accepted face list by the position it resolves to
    gives a face list whose indices are all positions of V, and the run on
    it ends the same way with the same calls on the canvas. *)
Theorem negative_indices_are_aliases (V : list arr3) (F : list face) :
  Forall (in_bounds_face V) F ->
  Forall (valid_face V) (normalise_face V <$> F) /\
  (run V (normalise_face V <$> F)).1 = (run V F).1 /\
  canvas (run V (normalise_face V <$> F)).2 = canvas (run V F).2.
Proof.
  intros HF. split.
  - apply Forall_fmap. apply (Forall_impl _ _ _ HF).
    intros f (H0 & H1 & H2). unfold valid_face, normalise_face. simpl.
    repeat split; apply vertex_at_resolved; assumption.
  - rewrite !result_run, !canvas_run. unfold drawn.
    rewrite (pass_calls_normalise V F HF). split; reflexivity.
Qed.

End Script.

(** ** Two runs on the same mesh *)



(** ** The properties on sample meshes *)

Lemma two_triangles_accepted :
  accepted refuses_huge prologue (spec_draw_sequence square two_triangles).
Proof. reflexivity. Defined.


Lemma triangle_segments_drawn_witness :
  (run refuses_huge square two_triangles).1 = Ok tt /\
  plots (canvas (run refuses_huge square two_triangles).2) !! 3 =
    Some (ax_plot [0%float; 1%float] [0%float; 1%float] [0%float; 0.5%float]
            "b-" 0.5%float) /\
  plots (canvas (run refuses_huge square two_triangles).2) !! 4 =
    Some (ax_plot [1%float; 0%float] [1%float; 1%float] [0.5%float; 0%float]
            "b-" 0.5%float) /\
  plots (canvas (run refuses_huge square two_triangles).2) !! 5 =
    Some (ax_plot [0%float; 0%float] [1%float; 0%float] [0%float; 0%float]
            "b-" 0.5%float) /\
  length (plots (canvas (run refuses_huge square two_triangles).2)) = 6.
Proof.
  exact (triangle_segments_drawn refuses_huge square two_triangles 1 0 2 3
           p0 p2 p3 square_two_triangles_valid two_triangles_accepted
           eq_refl eq_refl eq_refl eq_refl).
Defined.

(** The mesh with the coordinate 1.797e308 and the face (0, 1, 2): all
    indices are valid, the first segment is drawn, the call for the second
    raises, and the third segment is never drawn. *)
Lemma triangle_segments_drawn_counterexample :
  Forall (valid_face spike) [Face 0 1 2] /\
  [Face 0 1 2] !! 0 = Some (Face 0 1 2) /\
  (run refuses_huge spike [Face 0 1 2]).1 = Raise ValueError /\
  plots (canvas (run refuses_huge spike [Face 0 1 2]).2) !! 2 = None /\
  length (plots (canvas (run refuses_huge spike [Face 0 1 2]).2)) <>
    3 * length [Face 0 1 2].
Proof.
  split; [repeat constructor; simpl; lia|].
  split; [reflexivity|]. split; [reflexivity|]. split; [reflexivity|].
  discriminate.
Qed.

Lemma draw_count_no_dedup_witness :
  length (plots (canvas (run refuses_huge square two_triangles).2)) = 6 /\
  exists (m1 m2 : nat) (c1 c2 : call),
    m1 <> m2 /\ 0 <= m1 < 3 /\ 3 <= m2 < 6 /\
    plots (canvas (run refuses_huge square two_triangles).2) !! m1 = Some c1 /\
    plots (canvas (run refuses_huge square two_triangles).2) !! m2 = Some c2 /\
    joins p0 p2 c1 /\ joins p0 p2 c2.
Proof.
  destruct (draw_count_no_dedup refuses_huge square two_triangles
              square_two_triangles_valid two_triangles_accepted)
    as [Hlen Hshared].
  split; [exact Hlen|].
  apply (Hshared 0 1 (Face 0 1 2) (Face 0 2 3) 0%Z 2%Z p0 p2).
  - discriminate.
  - reflexivity.
  - reflexivity.
  - right. unfold edges. simpl.
    do 2 apply list_elem_of_further. apply list_elem_of_here.
  - left. unfold edges. simpl. apply list_elem_of_here.
  - reflexivity.
  - reflexivity.
Defined.

(** The same mesh with the faces (0, 1, 1) and (0, 1, 2): all indices are
    valid and five draw calls are made, not six. *)
Lemma draw_count_no_dedup_counterexample :
  Forall (valid_face spike) [Face 0 1 1; Face 0 1 2] /\
  length (plots (canvas (run refuses_huge spike [Face 0 1 1; Face 0 1 2]).2)) = 5 /\
  length (plots (canvas (run refuses_huge spike [Face 0 1 1; Face 0 1 2]).2)) <>
    3 * length [Face 0 1 1; Face 0 1 2].
Proof.
  split; [repeat constructor; simpl; lia|].
  split; [reflexivity|discriminate].
Qed.

(** The shared diagonal of the sample mesh is drawn by both triangles:
    as the third call of the first and as the first call of the second. *)
Example shared_diagonal_drawn_twice :
  plots (canvas (run refuses_huge square two_triangles).2) !! 2 =
    Some (segment p2 p0) /\
  plots (canvas (run refuses_huge square two_triangles).2) !! 3 =
    Some (segment p0 p2).
Proof. split; reflexivity. Qed.



(** The run with a single out-of-range index in the second of three
    faces: the first face is drawn, then the run stops. *)
Example single_out_of_range_index :
  run refuses_huge square one_bad_index =
    (Raise IndexError,
     World square one_bad_index
       (prologue ++ [segment p0 p1; segment p1 p2; segment p2 p0])).
Proof. reflexivity. Qed.

Lemma axis_labels_fixed_witness :
  (exists shown : list call,
     displayed (canvas (run refuses_huge square two_triangles).2) = Some shown /\
     last_set xlabel_arg shown = Some "X" /\
     last_set ylabel_arg shown = Some "Y" /\
     last_set zlabel_arg shown = Some "Z") /\
  is_Some (displayed (canvas (run refuses_huge [] []).2)).
Proof.
  split.
  - destruct (axis_labels_fixed refuses_huge square two_triangles)
      as [Hlabels Hopen].
    destruct Hopen as [shown Hshown]; [reflexivity|].
    exists shown. split; [exact Hshown|]. apply Hlabels, Hshown.
  - apply (axis_labels_fixed refuses_huge [] []). reflexivity.
Defined.

Lemma camera_fixed_witness :
  ax_view_init 20 45 ∈ canvas (run refuses_huge square two_triangles).2 /\
  (20 = 20 /\ 45 = 45)%Z /\
  (exists shown : list call,
     displayed (canvas (run refuses_huge square two_triangles).2) = Some shown /\
     last_set view_arg shown = Some (20%Z, 45%Z)) /\
  canvas (run refuses_huge square two_triangles).2 =
    prologue ++ plots (canvas (run refuses_huge square two_triangles).2) ++
    [ax_set_xlabel "X"; ax_set_ylabel "Y"; ax_set_zlabel "Z"] ++
    [ax_view_init 20 45; plt_show].
Proof.
  destruct (camera_fixed refuses_huge square two_triangles)
    as (Hargs & Hview & Horder).
  assert (Hin : ax_view_init 20 45
                ∈ canvas (run refuses_huge square two_triangles).2).
  { apply list_elem_of_lookup. exists 11. reflexivity. }
  split; [exact Hin|]. split; [exact (Hargs _ _ Hin)|]. split.
  - eexists. split; [reflexivity|]. apply Hview. reflexivity.
  - apply Horder. reflexivity.
Defined.

Lemma plot_style_fixed_witness :
  ax_plot [1%float; 0%float] [1%float; 1%float] [0.5%float; 0%float]
    "b-" 0.5%float
    ∈ canvas (run refuses_huge square two_triangles).2 /\
  ("b-" = "b-" /\ 0.5%float = 0.5%float).
Proof.
  assert (Hin : ax_plot [1%float; 0%float] [1%float; 1%float]
                  [0.5%float; 0%float] "b-" 0.5%float
                ∈ canvas (run refuses_huge square two_triangles).2).
  { apply list_elem_of_lookup. exists 6. reflexivity. }
  split; [exact Hin|].
  exact (plot_style_fixed refuses_huge square two_triangles _ _ _ _ _ Hin).
Defined.

(** The draw call that raised is on the canvas of the failed run, and it
    has the style of the others. *)
Example refused_call_has_the_style :
  last (canvas (run refuses_huge spike [Face 0 1 2]).2) =
    Some (ax_plot [1%float; 0%float] [0%float; 1%float] [0%float; near_max]
            "b-" 0.5%float).
Proof. reflexivity. Qed.

(** The mesh after a run that stops at a refused face, or in a draw call
    that raises, is the mesh that was loaded. *)
Example mesh_kept_on_failure :
  vertices (run refuses_huge square [Face 0 4 1]).2 = square /\
  faces (run refuses_huge square [Face 0 4 1]).2 = [Face 0 4 1] /\
  vertices (run refuses_huge spike [Face 0 1 2]).2 = spike /\
  faces (run refuses_huge spike [Face 0 1 2]).2 = [Face 0 1 2].
Proof. repeat split. Qed.


Lemma pass_app_continues_witness :
  (draw_pass refuses_huge
     (World square ([Face 0 1 2] ++ [Face 0 2 3]) prologue)).1 =
    (draw_pass refuses_huge
       (World square [Face 0 2 3]
          (canvas (draw_pass refuses_huge
                     (World square [Face 0 1 2] prologue)).2))).1 /\
  canvas (draw_pass refuses_huge
            (World square ([Face 0 1 2] ++ [Face 0 2 3]) prologue)).2 =
    canvas (draw_pass refuses_huge
              (World square [Face 0 2 3]
                 (canvas (draw_pass refuses_huge
                            (World square [Face 0 1 2] prologue)).2))).2.
Proof.
  apply (pass_app_continues refuses_huge square [Face 0 1 2] [Face 0 2 3]
           prologue).
  reflexivity.
Defined.

Lemma run_app_refused_witness :
  (run refuses_huge square ([Face 0 4 1] ++ two_triangles)).1 =
    Raise IndexError /\
  canvas (run refuses_huge square ([Face 0 4 1] ++ two_triangles)).2 =
    canvas (run refuses_huge square [Face 0 4 1]).2.
Proof.
  apply (run_app_refused refuses_huge square [Face 0 4 1] two_triangles).
  reflexivity.
Defined.

Lemma faces_drawn_whole_witness :
  exists k : nat,
    k <= length one_bad_index /\
    length (plots (canvas (run refuses_huge square one_bad_index).2)) = 3 * k /\
    Forall (in_bounds_face square) (take k one_bad_index) /\
    ((run refuses_huge square one_bad_index).1 = Ok tt <->
     k = length one_bad_index).
Proof.
  apply (faces_drawn_whole refuses_huge square one_bad_index). discriminate.
Defined.

Lemma blocks_are_closed_triangles_witness :
  exists (f : face) (p q r : arr3),
    one_bad_index !! 0 = Some f /\
    square !! resolve square (ix0 f) = Some p /\
    square !! resolve square (ix1 f) = Some q /\
    square !! resolve square (ix2 f) = Some r /\
    plots (canvas (run refuses_huge square one_bad_index).2) !! 0 =
      Some (segment p q) /\
    plots (canvas (run refuses_huge square one_bad_index).2) !! 1 =
      Some (segment q r) /\
    plots (canvas (run refuses_huge square one_bad_index).2) !! 2 =
      Some (segment r p).
Proof.
  apply (blocks_are_closed_triangles refuses_huge square one_bad_index 0).
  simpl. lia.
Defined.

Lemma plot_endpoints_are_vertices_witness :
  exists p q : arr3,
    p ∈ spike /\ q ∈ spike /\
    [1%float; 0%float] = [p.[0]; q.[0]] /\
    [0%float; 1%float] = [p.[1]; q.[1]] /\
    [0%float; near_max] = [p.[2]; q.[2]].
Proof.
  apply (plot_endpoints_are_vertices refuses_huge spike [Face 0 1 2] _ _ _
           "b-" 0.5%float).
  apply list_elem_of_lookup. exists 3. reflexivity.
Defined.

Lemma unused_vertices_ignored_witness :
  (run refuses_huge (square ++ [p1; p3]) two_triangles).1 =
    (run refuses_huge square two_triangles).1 /\
  canvas (run refuses_huge (square ++ [p1; p3]) two_triangles).2 =
    canvas (run refuses_huge square two_triangles).2.
Proof.
  exact (unused_vertices_ignored refuses_huge square [p1; p3] two_triangles
           square_two_triangles_valid).
Defined.

Lemma face_order_irrelevant_witness :
  Permutation (plots (canvas (run refuses_huge square two_triangles).2))
    (plots (canvas (run refuses_huge square [Face 0 2 3; Face 0 1 2]).2)) /\
  ((run refuses_huge square [Face 0 4 1; Face 0 1 2]).1 = Raise IndexError ->
   (run refuses_huge square [Face 0 1 2; Face 0 4 1]).1 <> Ok tt).
Proof.
  split.
  - apply (face_order_irrelevant refuses_huge square two_triangles
             [Face 0 2 3; Face 0 1 2]); [apply perm_swap|reflexivity..].
  - apply (face_order_irrelevant refuses_huge square
             [Face 0 4 1; Face 0 1 2] [Face 0 1 2; Face 0 4 1]).
    apply perm_swap.
Defined.

Lemma face_rotation_irrelevant_witness :
  Permutation
    (plots (canvas (run refuses_huge square
                      ([Face 0 1 2] ++ rotate_face (Face 0 2 3) :: [])).2))
    (plots (canvas (run refuses_huge square
                      ([Face 0 1 2] ++ Face 0 2 3 :: [])).2)).
Proof.
  apply (face_rotation_irrelevant refuses_huge square [Face 0 1 2] []
           (Face 0 2 3)); reflexivity.
Defined.

Lemma run_map_vertices_witness :
  canvas (run refuses_huge
            (map_vertex (fun v => v * 2)%float (fun v => v + 1)%float
               (fun v => - v)%float <$> square) two_triangles).2 =
    map_call (fun v => v * 2)%float (fun v => v + 1)%float
      (fun v => - v)%float
      <$> canvas (run refuses_huge square two_triangles).2.
Proof.
  apply (run_map_vertices refuses_huge (fun v => v * 2)%float
           (fun v => v + 1)%float (fun v => - v)%float square two_triangles);
    reflexivity.
Defined.

Lemma viewer_opens_iff_ok_witness :
  plt_show ∈ canvas (run refuses_huge square two_triangles).2 /\
  last (canvas (run refuses_huge square two_triangles).2) = Some plt_show /\
  length (canvas (run refuses_huge square two_triangles).2) = 13.
Proof.
  destruct (viewer_opens_iff_ok refuses_huge square two_triangles)
    as [Hiff Hlast].
  split; [apply Hiff; reflexivity|]. apply Hlast. reflexivity.
Defined.

(** In the run that ends in the ValueError of a draw call no index was
    refused, and the viewer is not opened. *)
Example viewer_not_opened_after_refused_call :
  Forall (in_bounds_face spike) [Face 0 1 2] /\
  displayed (canvas (run refuses_huge spike [Face 0 1 2]).2) = None.
Proof. split; [repeat constructor; simpl; lia|reflexivity]. Qed.

Lemma failed_run_sets_nothing_witness :
  canvas (run refuses_huge square one_bad_index).2 =
    prologue ++ plots (canvas (run refuses_huge square one_bad_index).2) /\
  last_set xlabel_arg (canvas (run refuses_huge square one_bad_index).2) = None /\
  last_set ylabel_arg (canvas (run refuses_huge square one_bad_index).2) = None /\
  last_set zlabel_arg (canvas (run refuses_huge square one_bad_index).2) = None /\
  last_set view_arg (canvas (run refuses_huge square one_bad_index).2) = None.
Proof.
  apply (failed_run_sets_nothing refuses_huge square one_bad_index).
  reflexivity.
Defined.

Lemma lookups_agree_witness :
  exists p q r : arr3,
    square !! resolve square (-1) = Some p /\
    square !! resolve square 0 = Some q /\
    square !! resolve square 2 = Some r /\
    Arr3 0%float 0%float 1%float = Arr3 p.[0] q.[0] r.[0] /\
    fancy_index square (Face (-1) 0 2) 1 = Ok (Arr3 p.[1] q.[1] r.[1]) /\
    fancy_index square (Face (-1) 0 2) 2 = Ok (Arr3 p.[2] q.[2] r.[2]).
Proof.
  apply (lookups_agree square (Face (-1) 0 2)). reflexivity.
Defined.

Lemma negative_indices_are_aliases_witness :
  Forall (valid_face square) (normalise_face square <$> [Face (-1) (-4) 2]) /\
  (run refuses_huge square (normalise_face square <$> [Face (-1) (-4) 2])).1 =
    (run refuses_huge square [Face (-1) (-4) 2]).1 /\
  canvas (run refuses_huge square
            (normalise_face square <$> [Face (-1) (-4) 2])).2 =
    canvas (run refuses_huge square [Face (-1) (-4) 2]).2.
Proof.
  apply (negative_indices_are_aliases refuses_huge square [Face (-1) (-4) 2]).
  repeat constructor; simpl; lia.
Defined.
